(** * Verification of [move_snake] (src/public/snake_Logic.py)

    The module holds one function, the per-tick transition of a snake game:
    from the snake body (head first), a direction string, the food position
    and the side of the square grid it computes either [None] (wall or self
    collision) or the dictionary [{"snake": new_snake, "ate": flag}].

    Two embeddings of the function are given.  [move_snake] works on values
    and threads Python's exceptions through an error monad; it carries the
    functional claims.  [Heap.move_snake] passes an explicit store of list
    objects, so that what the function allocates and what it mutates
    ([new_snake.pop()]) is visible; it carries the purity claim and is
    related to the first one by [move_snake_refines]. *)

From stdpp Require Import gmap strings list.
From Stdlib Require Import ZArith Lia.

Local Open Scope Z_scope.

(** ** Data model *)

(** A grid cell: the two-element list [[x, y]] of Python integers.  Python
    integers are unbounded, hence [Z]. *)
Definition Position : Type := Z * Z.

(** The exceptions the function's primitives can raise. *)
Inductive exn : Type :=
| IndexError.

(** Outcome of a Python computation: a value or a raised exception. *)
Inductive result (A : Type) : Type :=
| Ok (a : A)
| Raise (e : exn).
Arguments Ok {A} a.
Arguments Raise {A} e.

#[global] Instance result_ret : MRet result := fun A a => Ok a.
#[global] Instance result_bind : MBind result := fun A B f m =>
  match m with
  | Ok a => f a
  | Raise e => Raise e
  end.

(** What [move_snake] returns: [None], or a dictionary with the keys
    ["snake"] and ["ate"]. *)
Inductive pyval : Type :=
| PyNone
| PyDict (snake : list Position) (ate : bool).

(** The two outcomes under the names the specification uses. *)
Abbreviation Collision := PyNone (only parsing).
Abbreviation Moved := PyDict (only parsing).

#[global] Instance exn_eq_dec : EqDecision exn.
Proof. solve_decision. Defined.
#[global] Instance pyval_eq_dec : EqDecision pyval.
Proof. solve_decision. Defined.

(** ** Primitives on lists *)

(** [l[i]] for a non-negative index: [IndexError] out of range. *)
Definition getitem (l : list Position) (i : nat) : result Position :=
  match l !! i with
  | Some p => Ok p
  | None => Raise IndexError
  end.

(** [l.pop()]: the removed last element and the shortened list;
    [IndexError] on the empty list. *)
Definition pop (l : list Position) : result (Position * list Position) :=
  match l with
  | [] => Raise IndexError
  | p :: _ => Ok (List.last l p, removelast l)
  end.

(** [p in l], by structural equality of the elements. *)
Definition contains (p : Position) (l : list Position) : bool :=
  bool_decide (p ∈ l).

(** ** The transition function *)

(** The head after the [if]/[elif] chain on [direction]; a string that is
    none of the four leaves both coordinates as they were. *)
Definition advance (direction : string) (head : Position) : Position :=
  let '(head_x, head_y) := head in
  if String.eqb direction "UP" then (head_x, head_y - 1)
  else if String.eqb direction "DOWN" then (head_x, head_y + 1)
  else if String.eqb direction "LEFT" then (head_x - 1, head_y)
  else if String.eqb direction "RIGHT" then (head_x + 1, head_y)
  else (head_x, head_y).

(** The wall test of the source, on the coordinates of the new head. *)
Definition hits_wall (new_head : Position) (grid_size : Z) : bool :=
  let '(head_x, head_y) := new_head in
  (head_x <? 0) || (head_x >=? grid_size) || (head_y <? 0) || (head_y >=? grid_size).

Definition move_snake (snake : list Position) (direction : string)
    (food : Position) (grid_size : Z) : result pyval :=
  let snake_list := snake in
  head ← getitem snake_list 0;
  let new_head := advance direction head in
  if hits_wall new_head grid_size then Ok PyNone
  else if contains new_head snake_list then Ok PyNone
  else
    let new_snake := new_head :: snake_list in
    if bool_decide (new_head = food) then Ok (PyDict new_snake true)
    else
      '(_, new_snake) ← pop new_snake;
      Ok (PyDict new_snake false).

(** The default of the keyword argument [grid_size]. *)
Definition grid_size_default : Z := 20.

Definition move_snake_default (snake : list Position) (direction : string)
    (food : Position) : result pyval :=
  move_snake snake direction food grid_size_default.

(** ** The same function over a store of list objects

    Python lists are mutable objects reached through references.  Here the
    caller's list lives in a store; [list(snake)] and [[new_head] +
    snake_list] allocate fresh objects and [new_snake.pop()] updates one in
    place.  The positions themselves are never written to by the function
    and stay values. *)

Module Heap.

Definition loc : Type := nat.

(** The returned object: [None], or a dictionary whose ["snake"] entry
    refers to a list object of the store. *)
Inductive ref_val : Type :=
| RNone
| RDict (snake : loc) (ate : bool).

(** A computation takes the store and yields the store it leaves
    together with a value or an exception.  The outer [None] marks a
    reference to nothing, which no Python program can hold. *)
Definition M (A : Type) : Type :=
  gmap loc (list Position) → option (gmap loc (list Position) * result A).

Definition ret {A} (a : A) : M A := λ σ, Some (σ, Ok a).

Definition raise {A} (e : exn) : M A := λ σ, Some (σ, Raise e).

Definition bind {A B} (m : M A) (k : A → M B) : M B := λ σ,
  match m σ with
  | Some (σ', Ok a) => k a σ'
  | Some (σ', Raise e) => Some (σ', Raise e)
  | None => None
  end.

Notation "x <- m ;; k" := (bind m (λ x, k))
  (at level 100, m at next level, right associativity).

(** A new list object at an unused location. *)
Definition alloc (v : list Position) : M loc := λ σ,
  let l := fresh (dom σ) in Some (<[l := v]> σ, Ok l).

Definition read (l : loc) : M (list Position) := λ σ,
  match σ !! l with
  | Some v => Some (σ, Ok v)
  | None => None
  end.

Definition write (l : loc) (v : list Position) : M unit := λ σ,
  match σ !! l with
  | Some _ => Some (<[l := v]> σ, Ok tt)
  | None => None
  end.

(** [list(l)]: a new list with the same elements. *)
Definition list_copy (l : loc) : M loc :=
  v <- read l ;; alloc v.

(** [l[i]] *)
Definition getitem (l : loc) (i : nat) : M Position :=
  v <- read l ;;
  match v !! i with
  | Some p => ret p
  | None => raise IndexError
  end.

(** [p in l] *)
Definition contains (p : Position) (l : loc) : M bool :=
  v <- read l ;; ret (bool_decide (p ∈ v)).

(** [l1 + l2]: a new list, both operands untouched. *)
Definition concat (l1 l2 : loc) : M loc :=
  v1 <- read l1 ;; v2 <- read l2 ;; alloc (v1 ++ v2).

(** [l.pop()]: shortens the object at [l] in place. *)
Definition pop (l : loc) : M Position :=
  v <- read l ;;
  match v with
  | [] => raise IndexError
  | p :: _ => _ <- write l (removelast v) ;; ret (List.last v p)
  end.

Definition move_snake (snake : loc) (direction : string)
    (food : Position) (grid_size : Z) : M ref_val :=
  snake_list <- list_copy snake ;;
  head <- getitem snake_list 0 ;;
  let new_head := advance direction head in
  if hits_wall new_head grid_size then ret RNone
  else
    hit <- contains new_head snake_list ;;
    if (hit : bool) then ret RNone
    else
      singleton <- alloc [new_head] ;;
      new_snake <- concat singleton snake_list ;;
      if bool_decide (new_head = food) then ret (RDict new_snake true)
      else
        _ <- pop new_snake ;;
        ret (RDict new_snake false).

(** What the caller sees of an outcome: the dictionary with the list it
    refers to read from the store the call left. *)
Definition observe (out : gmap loc (list Position) * result ref_val)
    : result pyval :=
  match out with
  | (_, Raise e) => Raise e
  | (_, Ok RNone) => Ok PyNone
  | (σ, Ok (RDict l a)) => Ok (PyDict (default [] (σ !! l)) a)
  end.

(** Two calls in a row on the same arguments: the second runs in the
    store the first one left. *)
Definition twice (snake : loc) (direction : string) (food : Position)
    (grid_size : Z) (σ : gmap loc (list Position))
    : option (result pyval * result pyval * gmap loc (list Position)) :=
  match move_snake snake direction food grid_size σ with
  | Some (σ1, r1) =>
      match move_snake snake direction food grid_size σ1 with
      | Some (σ2, r2) => Some (observe (σ1, r1), observe (σ2, r2), σ2)
      | None => None
      end
  | None => None
  end.

End Heap.

(** ** Predicates the properties are stated with *)

(** The cell lies on the board: both coordinates in [[0, grid_size)]. *)
Definition in_grid (p : Position) (grid_size : Z) : Prop :=
  0 <= p.1 < grid_size ∧ 0 <= p.2 < grid_size.

(** The direction is one of the four the function recognises. *)
Definition known_direction (direction : string) : Prop :=
  direction = "UP" ∨ direction = "DOWN" ∨ direction = "LEFT" ∨ direction = "RIGHT".

(** The new head in the words of the specification, step 1 of the
    algorithm: the head offset by one unit in the direction, UP to y - 1,
    DOWN to y + 1, LEFT to x - 1, RIGHT to x + 1.  It is defined on those
    four directions only, and is what the [if]/[elif] chain of the source,
    [advance], is compared with. *)
Definition offset (direction : string) (head : Position) : option Position :=
  if decide (direction = "UP") then Some (head.1, head.2 - 1)
  else if decide (direction = "DOWN") then Some (head.1, head.2 + 1)
  else if decide (direction = "LEFT") then Some (head.1 - 1, head.2)
  else if decide (direction = "RIGHT") then Some (head.1 + 1, head.2)
  else None.

(** Two cells are neighbours along one axis of the grid. *)
Definition unit_step (p q : Position) : Prop :=
  Z.abs (q.1 - p.1) + Z.abs (q.2 - p.2) = 1.

(** Every segment is a neighbour of the next one. *)
Fixpoint contiguous (l : list Position) : Prop :=
  match l with
  | p :: (q :: _) as rest => unit_step p q ∧ contiguous rest
  | _ => True
  end.

#[global] Instance in_grid_dec p g : Decision (in_grid p g).
Proof. unfold in_grid. apply _. Defined.
#[global] Instance known_direction_dec d : Decision (known_direction d).
Proof. unfold known_direction. apply _. Defined.
#[global] Instance unit_step_dec p q : Decision (unit_step p q).
Proof. unfold unit_step. apply _. Defined.
#[global] Instance contiguous_dec l : Decision (contiguous l).
Proof.
  induction l as [|p [|q rest] IH]; simpl; try apply _.
Defined.

(** * Properties *)

(** ** The examples of the specification *)

Example ex_plain_move :
  move_snake [(5,5); (5,6); (5,7)] "UP" (5,3) 20
  = Ok (Moved [(5,4); (5,5); (5,6)] false).
Proof. reflexivity. Qed.

Example ex_growth :
  move_snake [(5,4); (5,5); (5,6)] "UP" (5,3) 20
  = Ok (Moved [(5,3); (5,4); (5,5); (5,6)] true).
Proof. reflexivity. Qed.

Example ex_wall :
  move_snake [(0,0); (0,1)] "UP" (7,7) 20 = Ok Collision.
Proof. reflexivity. Qed.

Example ex_tail_cell :
  move_snake [(5,5); (5,6); (4,6); (4,5)] "LEFT" (9,9) 20 = Ok Collision.
Proof. reflexivity. Qed.

Example ex_empty :
  move_snake [] "UP" (1,1) 20 = Raise IndexError.
Proof. reflexivity. Qed.

Example ex_heap_move :
  Heap.observe <$> Heap.move_snake 0%nat "UP" (5,3) 20
                     {[ 0%nat := [(5,5); (5,6); (5,7)] ]}
  = Some (Ok (Moved [(5,4); (5,5); (5,6)] false)).
Proof. vm_compute. reflexivity. Qed.

(** ** The pieces of the function *)

Section pieces.
Context (direction : string) (grid_size : Z).
Implicit Types (p head : Position) (l snake : list Position).

Lemma hits_wall_true p :
  hits_wall p grid_size = true ↔
  p.1 < 0 ∨ p.1 >= grid_size ∨ p.2 < 0 ∨ p.2 >= grid_size.
Proof.
  destruct p as [x y]; unfold hits_wall; simpl.
  rewrite !orb_true_iff, !Z.ltb_lt, !Z.geb_le. lia.
Qed.

Lemma hits_wall_false p :
  hits_wall p grid_size = false ↔ in_grid p grid_size.
Proof.
  unfold in_grid. rewrite <- not_true_iff_false, hits_wall_true. lia.
Qed.

Lemma contains_true p l : contains p l = true ↔ p ∈ l.
Proof. unfold contains. apply bool_decide_eq_true. Qed.

Lemma contains_false p l : contains p l = false ↔ p ∉ l.
Proof. unfold contains. apply bool_decide_eq_false. Qed.

Lemma advance_UP head : advance "UP" head = (head.1, head.2 - 1).
Proof. by destruct head. Qed.

Lemma advance_DOWN head : advance "DOWN" head = (head.1, head.2 + 1).
Proof. by destruct head. Qed.

Lemma advance_LEFT head : advance "LEFT" head = (head.1 - 1, head.2).
Proof. by destruct head. Qed.

Lemma advance_RIGHT head : advance "RIGHT" head = (head.1 + 1, head.2).
Proof. by destruct head. Qed.

Lemma advance_unknown head :
  ¬ known_direction direction → advance direction head = head.
Proof.
  unfold known_direction, advance. intros Hd. destruct head as [x y].
  repeat match goal with
         | |- context [String.eqb direction ?s] =>
             destruct (String.eqb_spec direction s); [tauto|]
         end.
  reflexivity.
Qed.

Lemma advance_unit_step head :
  known_direction direction → unit_step head (advance direction head).
Proof.
  unfold unit_step.
  intros [-> | [-> | [-> | ->]]]; destruct head as [x y]; simpl; lia.
Qed.

Lemma getitem_head snake head :
  snake !! 0%nat = Some head → getitem snake 0 = Ok head.
Proof. unfold getitem. by intros ->. Qed.

Lemma pop_cons p l : pop (p :: l) = Ok (List.last (p :: l) p, removelast (p :: l)).
Proof. reflexivity. Qed.

(** The function on a body whose first element is [head], with the
    monadic plumbing evaluated away. *)
Lemma move_snake_unfold snake head food :
  snake !! 0%nat = Some head →
  move_snake snake direction food grid_size =
    let new_head := advance direction head in
    if hits_wall new_head grid_size then Ok Collision
    else if contains new_head snake then Ok Collision
    else if bool_decide (new_head = food) then Ok (Moved (new_head :: snake) true)
    else Ok (Moved (new_head :: removelast snake) false).
Proof.
  intros Hhd. unfold move_snake. rewrite (getitem_head _ _ Hhd). simpl.
  destruct snake as [|h rest]; [done|].
  repeat case_match; try done.
Qed.

End pieces.

Lemma move_snake_empty direction food grid_size :
  move_snake [] direction food grid_size = Raise IndexError.
Proof. reflexivity. Qed.

Lemma length_removelast_cons {A} (x : A) (l : list A) :
  length (removelast (x :: l)) = length l.
Proof.
  revert x; induction l as [|y l IH]; intros x; [done|].
  change (removelast (x :: y :: l)) with (x :: removelast (y :: l)).
  cbn [length]. by rewrite IH.
Qed.

(** ** Moves, growth and collisions *)

(** On the four directions the source's chain computes the offset of the
    specification. *)
Lemma advance_offset direction head new_head :
  offset direction head = Some new_head → advance direction head = new_head.
Proof.
  unfold offset. destruct head as [x y].
  repeat case_decide; intros [= <-]; by subst direction.
Qed.

Lemma offset_known direction head :
  known_direction direction ↔ is_Some (offset direction head).
Proof.
  unfold known_direction, offset. split.
  - intros [-> | [-> | [-> | ->]]]; by eexists.
  - repeat case_decide; intros [? [=]]; tauto.
Qed.

(** C1: on a non-empty body, with one of the four directions and a positive
    grid size, let the new head be the old head offset by one unit in the
    direction (UP: y - 1, DOWN: y + 1, LEFT: x - 1, RIGHT: x + 1).  When
    it lies on the board, is not a cell of the body before the move and is
    not the food, the function returns the dictionary with [ate = False]
    whose body is the new head followed by the old body without its last
    element; that body is as long as the old one, and its first cell, the
    new head, is one unit step from the old head in the given direction. *)
Theorem move_snake_plain_move snake head direction food grid_size new_head :
  snake !! 0%nat = Some head →
  known_direction direction →
  0 < grid_size →
  offset direction head = Some new_head →
  in_grid new_head grid_size →
  new_head ∉ snake →
  new_head ≠ food →
  move_snake snake direction food grid_size
    = Ok (Moved (new_head :: removelast snake) false)
  ∧ length (new_head :: removelast snake) = length snake
  ∧ unit_step head new_head
  ∧ (direction = "UP" → new_head = (head.1, head.2 - 1))
  ∧ (direction = "DOWN" → new_head = (head.1, head.2 + 1))
  ∧ (direction = "LEFT" → new_head = (head.1 - 1, head.2))
  ∧ (direction = "RIGHT" → new_head = (head.1 + 1, head.2)).
Proof.
  intros Hhd Hdir _ Hoff Hgrid Hself Hfood.
  pose proof (advance_offset _ _ _ Hoff) as Hadv.
  split_and!.
  - rewrite (move_snake_unfold _ _ _ _ _ Hhd); cbv zeta. rewrite Hadv.
    apply hits_wall_false in Hgrid as ->.
    apply contains_false in Hself as ->.
    by rewrite bool_decide_eq_false_2.
  - destruct snake as [|h rest]; [done|].
    cbn [length]. by rewrite length_removelast_cons.
  - rewrite <- Hadv. by apply advance_unit_step.
  - intros ->. by rewrite <- Hadv, advance_UP.
  - intros ->. by rewrite <- Hadv, advance_DOWN.
  - intros ->. by rewrite <- Hadv, advance_LEFT.
  - intros ->. by rewrite <- Hadv, advance_RIGHT.
Qed.

Lemma move_snake_plain_move_witness :
  offset "DOWN" (5,5) = Some (5,6)
  ∧ move_snake [(5,5); (5,4); (5,3)] "DOWN" (0,0) 20
    = Ok (Moved [(5,6); (5,5); (5,4)] false)
  ∧ length [(5,6); (5,5); (5,4)] = length [(5,5); (5,4); (5,3)]
  ∧ unit_step (5,5) (5,6).
Proof.
  destruct (move_snake_plain_move
              [(5,5); (5,4); (5,3)] (5,5) "DOWN" (0,0) 20 (5,6))
    as (Hres & Hlen & Hstep & _).
  - reflexivity.
  - right; left. reflexivity.
  - lia.
  - reflexivity.
  - unfold in_grid; simpl; lia.
  - apply (bool_decide_unpack _). vm_compute. exact I.
  - discriminate.
  - split_and!; [reflexivity | exact Hres | exact Hlen | exact Hstep].
Defined.

(** C2: on a non-empty body, whatever the direction, the food and the grid
    size, when the new head has x < 0, x >= grid_size, y < 0 or
    y >= grid_size the function returns [None], the collision outcome. *)
Theorem move_snake_wall_collision snake head direction food grid_size :
  snake !! 0%nat = Some head →
  (advance direction head).1 < 0 ∨ (advance direction head).1 >= grid_size ∨
  (advance direction head).2 < 0 ∨ (advance direction head).2 >= grid_size →
  move_snake snake direction food grid_size = Ok Collision.
Proof.
  intros Hhd Hout.
  rewrite (move_snake_unfold _ _ _ _ _ Hhd); cbv zeta.
  by apply hits_wall_true in Hout as ->.
Qed.

Lemma move_snake_wall_collision_witness :
  move_snake [(0,0); (0,1)] "UP" (7,7) 20 = Ok Collision.
Proof.
  apply (move_snake_wall_collision _ (0,0)).
  - reflexivity.
  - right; right; left. simpl. lia.
Defined.

(** C3: on a non-empty body, when the new head equals a cell of the body as
    it is before the move (the tail cell included, since the tail has not
    been removed when the test is made), the function returns [None]. *)
Theorem move_snake_self_collision snake head direction food grid_size :
  snake !! 0%nat = Some head →
  advance direction head ∈ snake →
  move_snake snake direction food grid_size = Ok Collision.
Proof.
  intros Hhd Hin.
  rewrite (move_snake_unfold _ _ _ _ _ Hhd); cbv zeta.
  apply contains_true in Hin as ->.
  by destruct (hits_wall _ _).
Qed.

Lemma move_snake_self_collision_witness :
  List.last [(5,5); (5,6); (4,6); (4,5)] (0,0) = advance "LEFT" (5,5)
  ∧ move_snake [(5,5); (5,6); (4,6); (4,5)] "LEFT" (9,9) 20 = Ok Collision.
Proof.
  split; [reflexivity|].
  apply (move_snake_self_collision _ (5,5)).
  - reflexivity.
  - apply (bool_decide_unpack _). vm_compute. exact I.
Defined.

(** C4: on a non-empty body, when the new head lies on the board, is not a
    cell of the body before the move and equals the food, the function
    returns the dictionary with [ate = True] whose body is the new head
    followed by the whole old body: one longer, the old tail kept. *)
Theorem move_snake_growth snake head direction food grid_size :
  snake !! 0%nat = Some head →
  in_grid (advance direction head) grid_size →
  advance direction head ∉ snake →
  advance direction head = food →
  move_snake snake direction food grid_size
    = Ok (Moved (advance direction head :: snake) true)
  ∧ length (advance direction head :: snake) = S (length snake)
  ∧ List.last (advance direction head :: snake) head = List.last snake head.
Proof.
  intros Hhd Hgrid Hself Hfood.
  split_and!.
  - rewrite (move_snake_unfold _ _ _ _ _ Hhd); cbv zeta.
    apply hits_wall_false in Hgrid as ->.
    apply contains_false in Hself as ->.
    by rewrite bool_decide_eq_true_2.
  - reflexivity.
  - by destruct snake.
Qed.

Lemma move_snake_growth_witness :
  move_snake [(5,4); (5,5); (5,6)] "UP" (5,3) 20
    = Ok (Moved [(5,3); (5,4); (5,5); (5,6)] true).
Proof.
  apply (move_snake_growth [(5,4); (5,5); (5,6)] (5,4) "UP" (5,3) 20).
  - reflexivity.
  - unfold in_grid; simpl; lia.
  - apply (bool_decide_unpack _). vm_compute. exact I.
  - reflexivity.
Defined.

(** ** The outcomes of the function *)

(** C5: on a non-empty body the function returns [None] exactly when the
    new head is off the board or is a cell of the body before the move; in
    every other case it returns a dictionary; and it raises nothing, so
    the collision is the only failure there is. *)
Theorem move_snake_collision_iff snake head direction food grid_size :
  snake !! 0%nat = Some head →
  (move_snake snake direction food grid_size = Ok Collision
     ↔ ¬ in_grid (advance direction head) grid_size
       ∨ advance direction head ∈ snake)
  ∧ (¬ (¬ in_grid (advance direction head) grid_size
        ∨ advance direction head ∈ snake) →
     ∃ body ate,
       move_snake snake direction food grid_size = Ok (Moved body ate))
  ∧ (∀ e, move_snake snake direction food grid_size ≠ Raise e).
Proof.
  intros Hhd.
  rewrite (move_snake_unfold _ _ _ _ _ Hhd); cbv zeta.
  destruct (hits_wall (advance direction head) grid_size) eqn:Hwall.
  - assert (¬ in_grid (advance direction head) grid_size) as Hout.
    { rewrite <- hits_wall_false. congruence. }
    split_and!; [tauto | tauto | done].
  - apply hits_wall_false in Hwall.
    destruct (contains (advance direction head) snake) eqn:Hself.
    + apply contains_true in Hself. split_and!; [tauto | tauto | done].
    + apply contains_false in Hself.
      case_bool_decide; (split_and!; [ | eauto | done]);
        (split; [done | tauto]).
Qed.

Lemma move_snake_collision_iff_witness :
  (move_snake [(0,0); (0,1)] "UP" (7,7) 20 = Ok Collision
     ↔ ¬ in_grid (advance "UP" (0,0)) 20
       ∨ advance "UP" (0,0) ∈ [(0,0); (0,1)])
  ∧ (∀ e, move_snake [(0,0); (0,1)] "UP" (7,7) 20 ≠ Raise e).
Proof.
  destruct (move_snake_collision_iff [(0,0); (0,1)] (0,0) "UP" (7,7) 20)
    as (Hiff & _ & Hexn).
  - reflexivity.
  - split; [exact Hiff | exact Hexn].
Defined.

(** C8: on a non-empty body every access is in range: element 0 exists,
    and the list the function pops from (the new head put in front of the
    body) is not empty; so the function returns a value and no exception
    branch is reached. *)
Theorem move_snake_total snake direction food grid_size :
  snake ≠ [] →
  (∃ head, getitem snake 0 = Ok head
     ∧ ∃ tail rest, pop (advance direction head :: snake) = Ok (tail, rest))
  ∧ ∃ v, move_snake snake direction food grid_size = Ok v.
Proof.
  intros Hne. destruct snake as [|head rest]; [done|].
  split.
  - exists head. split; [done|]. rewrite pop_cons. eauto.
  - rewrite (move_snake_unfold _ _ (head :: rest) head) by done; cbv zeta.
    repeat case_match; eauto.
Qed.

Lemma move_snake_total_witness :
  ∃ v, move_snake [(3,3)] "RIGHT" (0,0) 20 = Ok v.
Proof.
  apply (move_snake_total [(3,3)] "RIGHT" (0,0) 20). discriminate.
Defined.

(** C9: on a non-empty body, when the direction is none of "UP", "DOWN",
    "LEFT" and "RIGHT", the new head is the current head, which is a cell
    of the body, and the function returns [None]: it neither moves nor
    raises. *)
Theorem move_snake_unknown_direction snake head direction food grid_size :
  snake !! 0%nat = Some head →
  ¬ known_direction direction →
  advance direction head = head
  ∧ head ∈ snake
  ∧ move_snake snake direction food grid_size = Ok Collision.
Proof.
  intros Hhd Hdir.
  assert (head ∈ snake) as Hin by (by eapply list_elem_of_lookup_2).
  split_and!; [by apply advance_unknown | done |].
  rewrite (move_snake_unfold _ _ _ _ _ Hhd); cbv zeta.
  rewrite (advance_unknown _ _ Hdir).
  apply contains_true in Hin as ->.
  by destruct (hits_wall _ _).
Qed.

Lemma move_snake_unknown_direction_witness :
  advance "up" (5,5) = (5,5)
  ∧ (5,5) ∈ [(5,5); (5,6)]
  ∧ move_snake [(5,5); (5,6)] "up" (1,1) 20 = Ok Collision.
Proof.
  apply (move_snake_unknown_direction [(5,5); (5,6)] (5,5) "up" (1,1) 20).
  - reflexivity.
  - apply (bool_decide_unpack _). vm_compute. exact I.
Defined.

(** C10: on a non-empty body, when [grid_size <= 0] the function returns
    [None] whatever the direction and the food: no integer coordinate
    passes the wall test, every cell is reported as off the board. *)
Theorem move_snake_empty_grid snake direction food grid_size :
  snake ≠ [] →
  grid_size <= 0 →
  move_snake snake direction food grid_size = Ok Collision
  ∧ (∀ p, hits_wall p grid_size = true)
  ∧ (∀ p, ¬ in_grid p grid_size).
Proof.
  intros Hne Hsize.
  assert (∀ p, hits_wall p grid_size = true) as Hwall.
  { intros p. apply hits_wall_true. lia. }
  split_and!; [ | done | ].
  - destruct snake as [|head rest]; [done|].
    rewrite (move_snake_unfold _ _ (head :: rest) head) by done; cbv zeta.
    by rewrite Hwall.
  - intros p Hin. apply hits_wall_false in Hin. by rewrite Hwall in Hin.
Qed.

Lemma move_snake_empty_grid_witness :
  move_snake [(0,0)] "RIGHT" (0,0) 0 = Ok Collision.
Proof.
  apply (move_snake_empty_grid [(0,0)] "RIGHT" (0,0) 0); [discriminate | lia].
Defined.

(** ** The shape of the body is preserved *)

Section body_shape.
Implicit Types (p q : Position) (l : list Position).

(** [contiguous] says that the cells at neighbouring indices are
    neighbours on the grid. *)
Lemma contiguous_lookup l :
  contiguous l ↔
  ∀ (i : nat) p q, l !! i = Some p → l !! S i = Some q → unit_step p q.
Proof.
  induction l as [|a [|b l] IH].
  - split; [intros _ i p q Hp; by rewrite lookup_nil in Hp | done].
  - split; [|done]. intros _ [|i] p q Hp Hq; simplify_eq/=.
  - change (contiguous (a :: b :: l))
      with (unit_step a b ∧ contiguous (b :: l)).
    rewrite IH. split.
    + intros [Hab Hrest] [|i] p q Hp Hq; simplify_eq/=; eauto.
    + intros Hall. split.
      * by apply (Hall 0%nat).
      * intros i p q Hp Hq. by apply (Hall (S i)).
Qed.

Lemma elem_of_removelast p l : p ∈ removelast l → p ∈ l.
Proof.
  induction l as [|a [|b l] IH]; [done| |].
  - simpl. by rewrite elem_of_nil.
  - change (removelast (a :: b :: l)) with (a :: removelast (b :: l)).
    rewrite !(elem_of_cons _ p a). intros [-> | Hin]; [by left|].
    right. by apply IH.
Qed.

Lemma NoDup_removelast l : NoDup l → NoDup (removelast l).
Proof.
  induction l as [|a [|b l] IH]; [done| |].
  - intros _. simpl. constructor.
  - change (removelast (a :: b :: l)) with (a :: removelast (b :: l)).
    rewrite !(NoDup_cons a). intros [Hfresh Hrest]. split; [|by apply IH].
    intros Hin. by apply Hfresh, elem_of_removelast.
Qed.

Lemma contiguous_removelast l : contiguous l → contiguous (removelast l).
Proof.
  induction l as [|a [|b [|c l]] IH]; try done.
  change (removelast (a :: b :: c :: l))
    with (a :: b :: removelast (c :: l)).
  change (contiguous (a :: b :: c :: l))
    with (unit_step a b ∧ contiguous (b :: c :: l)).
  intros [Hab Hrest]. split; [done|]. by apply IH.
Qed.

Lemma contiguous_cons p l :
  (∀ q, l !! 0%nat = Some q → unit_step p q) →
  contiguous l → contiguous (p :: l).
Proof. destruct l as [|q l]; [done|]. intros Hpq Hl. split; eauto. Qed.

Lemma unit_step_sym p q : unit_step p q → unit_step q p.
Proof. unfold unit_step. lia. Qed.

End body_shape.

(** C6: from a non-empty body without repeated cells whose neighbouring
    segments are one unit step apart, and one of the four directions,
    whenever the function returns a dictionary its body again has no
    repeated cell and neighbouring segments one unit step apart. *)
Theorem move_snake_preserves_shape snake direction food grid_size body ate :
  snake ≠ [] →
  NoDup snake →
  contiguous snake →
  known_direction direction →
  move_snake snake direction food grid_size = Ok (Moved body ate) →
  NoDup body ∧ contiguous body.
Proof.
  intros Hne Hnodup Hcont Hdir.
  destruct snake as [|head rest]; [done|].
  rewrite (move_snake_unfold _ _ (head :: rest) head) by done; cbv zeta.
  pose proof (advance_unit_step direction head Hdir) as Hstep.
  apply unit_step_sym in Hstep.
  destruct (hits_wall _ _); [done|].
  destruct (contains _ _) eqn:Hself; [done|].
  apply contains_false in Hself.
  assert (NoDup (advance direction head :: head :: rest)) as Hnodup'.
  { by apply NoDup_cons. }
  assert (contiguous (advance direction head :: head :: rest)) as Hcont'.
  { split; [|done]. unfold unit_step in *. lia. }
  case_bool_decide; intros [= <- <-].
  - done.
  - split.
    + by apply (NoDup_removelast (_ :: _ :: _)).
    + by apply (contiguous_removelast (_ :: _ :: _)).
Qed.

Lemma move_snake_preserves_shape_witness :
  NoDup [(5,4); (5,5); (5,6)] ∧ contiguous [(5,4); (5,5); (5,6)].
Proof.
  apply (move_snake_preserves_shape
           [(5,5); (5,6); (5,7)] "UP" (5,3) 20 [(5,4); (5,5); (5,6)] false).
  - discriminate.
  - apply (bool_decide_unpack _). vm_compute. exact I.
  - apply (bool_decide_unpack _). vm_compute. exact I.
  - left. reflexivity.
  - reflexivity.
Defined.

(** ** No effect on the caller's objects *)

Section store.
Implicit Types (σ : gmap Heap.loc (list Position)) (l : Heap.loc)
  (v : list Position).

Lemma fresh_unused σ : σ !! fresh (dom σ) = None.
Proof. apply not_elem_of_dom, is_fresh. Qed.

Lemma alloc_extends σ v : σ ⊆ <[fresh (dom σ) := v]> σ.
Proof. apply insert_subseteq, fresh_unused. Qed.

Lemma read_Some σ l v : σ !! l = Some v → Heap.read l σ = Some (σ, Ok v).
Proof. unfold Heap.read. by intros ->. Qed.

Lemma write_Some σ l v v' :
  σ !! l = Some v → Heap.write l v' σ = Some (<[l := v']> σ, Ok tt).
Proof. unfold Heap.write. by intros ->. Qed.

Lemma bind_Ok {A B} (m : Heap.M A) (k : A → Heap.M B) σ σ' a :
  m σ = Some (σ', Ok a) → Heap.bind m k σ = k a σ'.
Proof. unfold Heap.bind. by intros ->. Qed.

Lemma bind_Raise {A B} (m : Heap.M A) (k : A → Heap.M B) σ σ' e :
  m σ = Some (σ', Raise e) → Heap.bind m k σ = Some (σ', Raise e).
Proof. unfold Heap.bind. by intros ->. Qed.

Lemma list_copy_Some σ l v :
  σ !! l = Some v →
  Heap.list_copy l σ = Some (<[fresh (dom σ) := v]> σ, Ok (fresh (dom σ))).
Proof.
  intros Hl. unfold Heap.list_copy.
  by rewrite (bind_Ok _ _ _ _ _ (read_Some _ _ _ Hl)).
Qed.

Lemma getitem_Some σ l v (i : nat) :
  σ !! l = Some v →
  Heap.getitem l i σ = Some (σ, getitem v i).
Proof.
  intros Hl. unfold Heap.getitem, getitem.
  rewrite (bind_Ok _ _ _ _ _ (read_Some _ _ _ Hl)).
  by destruct (v !! i).
Qed.

Lemma contains_Some σ l v p :
  σ !! l = Some v →
  Heap.contains p l σ = Some (σ, Ok (contains p v)).
Proof.
  intros Hl. unfold Heap.contains.
  by rewrite (bind_Ok _ _ _ _ _ (read_Some _ _ _ Hl)).
Qed.

Lemma concat_Some σ l1 l2 v1 v2 :
  σ !! l1 = Some v1 → σ !! l2 = Some v2 →
  Heap.concat l1 l2 σ
    = Some (<[fresh (dom σ) := v1 ++ v2]> σ, Ok (fresh (dom σ))).
Proof.
  intros H1 H2. unfold Heap.concat.
  rewrite (bind_Ok _ _ _ _ _ (read_Some _ _ _ H1)).
  by rewrite (bind_Ok _ _ _ _ _ (read_Some _ _ _ H2)).
Qed.

Lemma pop_Some σ l p v :
  σ !! l = Some (p :: v) →
  Heap.pop l σ
    = Some (<[l := removelast (p :: v)]> σ, Ok (List.last (p :: v) p)).
Proof.
  intros Hl. unfold Heap.pop.
  rewrite (bind_Ok _ _ _ _ _ (read_Some _ _ _ Hl)).
  by rewrite (bind_Ok _ _ _ _ _ (write_Some _ _ _ _ Hl)).
Qed.

(** The store-passing function computes what [move_snake] computes on
    the value of the caller's list, and leaves every object that existed
    before the call as it was. *)
Lemma move_snake_refines σ snake body direction food grid_size :
  σ !! snake = Some body →
  ∃ σ' r,
    Heap.move_snake snake direction food grid_size σ = Some (σ', r)
    ∧ Heap.observe (σ', r) = move_snake body direction food grid_size
    ∧ σ ⊆ σ'.
Proof.
  intros Hsnake. unfold Heap.move_snake.
  rewrite (bind_Ok _ _ _ _ _ (list_copy_Some _ _ _ Hsnake)).
  set (l1 := fresh (dom σ)). set (σ1 := <[l1 := body]> σ).
  assert (σ ⊆ σ1) as Hσ1 by apply alloc_extends.
  assert (σ1 !! l1 = Some body) as Hl1 by apply lookup_insert_eq.
  destruct body as [|head rest].
  { rewrite (bind_Raise _ _ _ σ1 IndexError).
    - by exists σ1, (Raise IndexError).
    - by rewrite (getitem_Some _ _ _ _ Hl1). }
  rewrite (bind_Ok _ _ _ σ1 head) by (by rewrite (getitem_Some _ _ _ _ Hl1)).
  rewrite (move_snake_unfold _ _ (head :: rest) head) by done; cbv zeta.
  set (new_head := advance direction head).
  destruct (hits_wall new_head grid_size).
  { by exists σ1, (Ok Heap.RNone). }
  rewrite (bind_Ok _ _ _ _ _ (contains_Some _ _ _ new_head Hl1)).
  destruct (contains new_head (head :: rest)).
  { by exists σ1, (Ok Heap.RNone). }
  rewrite (bind_Ok _ _ σ1 _ _ eq_refl).
  set (l2 := fresh (dom σ1)). set (σ2 := <[l2 := [new_head]]> σ1).
  assert (σ1 ⊆ σ2) as Hσ2 by apply alloc_extends.
  assert (σ2 !! l2 = Some [new_head]) as Hl2 by apply lookup_insert_eq.
  assert (σ2 !! l1 = Some (head :: rest)) as Hl1'.
  { by eapply lookup_weaken. }
  rewrite (bind_Ok _ _ _ _ _ (concat_Some _ _ _ _ _ Hl2 Hl1')).
  set (l3 := fresh (dom σ2)). set (σ3 := <[l3 := [new_head] ++ head :: rest]> σ2).
  assert (σ2 ⊆ σ3) as Hσ3 by apply alloc_extends.
  assert (σ3 !! l3 = Some (new_head :: head :: rest)) as Hl3
    by apply lookup_insert_eq.
  case_bool_decide.
  { exists σ3, (Ok (Heap.RDict l3 true)). split_and!; [done | |].
    - simpl. by rewrite Hl3.
    - by do 2 (etrans; [eassumption|]). }
  rewrite (bind_Ok _ _ _ _ _ (pop_Some _ _ _ _ Hl3)).
  eexists _, _. split_and!; [done | |].
  - simpl. by rewrite lookup_insert_eq.
  - subst σ3. rewrite insert_insert_eq.
    etrans; [exact Hσ1|]. etrans; [exact Hσ2|].
    apply insert_subseteq, fresh_unused.
Qed.

End store.

(** C7: the function is deterministic and pure.  Called twice in a row on
    the same arguments, the second time in the store the first call left,
    it produces the same result both times, namely the one the value of
    the caller's list determines, and every object that existed before the
    calls, the caller's list among them, is unchanged afterwards. *)
Theorem move_snake_deterministic
    (σ : gmap Heap.loc (list Position)) snake body direction food grid_size :
  σ !! snake = Some body →
  ∃ σ2,
    Heap.twice snake direction food grid_size σ
      = Some (move_snake body direction food grid_size,
              move_snake body direction food grid_size, σ2)
    ∧ σ ⊆ σ2
    ∧ σ2 !! snake = Some body.
Proof.
  intros Hsnake. unfold Heap.twice.
  destruct (move_snake_refines σ snake body direction food grid_size Hsnake)
    as (σ1 & r1 & -> & Hobs1 & Hσ1).
  assert (σ1 !! snake = Some body) as Hsnake1 by (by eapply lookup_weaken).
  destruct (move_snake_refines σ1 snake body direction food grid_size Hsnake1)
    as (σ2 & r2 & -> & Hobs2 & Hσ2).
  exists σ2. split_and!.
  - by rewrite Hobs1, Hobs2.
  - by etrans.
  - by eapply lookup_weaken.
Qed.

Lemma move_snake_deterministic_witness :
  ∃ σ2,
    Heap.twice 0%nat "UP" (5,3) 20 {[ 0%nat := [(5,5); (5,6); (5,7)] ]}
      = Some (Ok (Moved [(5,4); (5,5); (5,6)] false),
              Ok (Moved [(5,4); (5,5); (5,6)] false), σ2)
    ∧ σ2 !! 0%nat = Some [(5,5); (5,6); (5,7)].
Proof.
  destruct (move_snake_deterministic
              {[ 0%nat := [(5,5); (5,6); (5,7)] ]} 0%nat
              [(5,5); (5,6); (5,7)] "UP" (5,3) 20)
    as (σ2 & Hrun & _ & Hkept).
  - vm_compute. reflexivity.
  - exists σ2. split; [exact Hrun | exact Hkept].
Defined.

(** * Further properties of [move_snake] *)

(** ** What a returned dictionary tells *)

Lemma advance_moves direction head :
  known_direction direction → advance direction head ≠ head.
Proof.
  intros Hdir Heq. pose proof (advance_unit_step direction head Hdir) as Hstep.
  rewrite Heq in Hstep. unfold unit_step in Hstep. lia.
Qed.

(** Every way the function can return a dictionary, read backwards. *)
Lemma move_snake_Moved_cases snake direction food grid_size body ate :
  move_snake snake direction food grid_size = Ok (Moved body ate) →
  ∃ head,
    snake !! 0%nat = Some head
    ∧ in_grid (advance direction head) grid_size
    ∧ (advance direction head ∉ snake)
    ∧ ate = bool_decide (advance direction head = food)
    ∧ body = (if ate then advance direction head :: snake
              else advance direction head :: removelast snake).
Proof.
  destruct snake as [|head rest]; [done|].
  rewrite (move_snake_unfold _ _ (head :: rest) head) by done; cbv zeta.
  destruct (hits_wall _ _) eqn:Hwall; [done|].
  destruct (contains _ _) eqn:Hself; [done|].
  apply hits_wall_false in Hwall. apply contains_false in Hself.
  intros Hres. exists head.
  case_bool_decide; injection Hres as <- <-; by split_and!.
Qed.

(** X1: the function raises exactly on the empty body, and what it raises
    then is [IndexError]. *)
Theorem move_snake_raises_iff snake direction food grid_size e :
  move_snake snake direction food grid_size = Raise e
  ↔ snake = [] ∧ e = IndexError.
Proof.
  split.
  - destruct snake as [|head rest].
    + destruct e. by intros _.
    + rewrite (move_snake_unfold _ _ (head :: rest) head) by done; cbv zeta.
      repeat case_match; done.
  - by intros [-> ->].
Qed.

(** X2: a returned dictionary fixes the move that was made: the direction
    was one of the four, the first cell of the new body is the old head
    moved one unit step, it lies on the board and was not a cell of the
    old body, [ate] says whether it is the food, and the body grew by one
    when [ate] holds and kept its length otherwise. *)
Theorem move_snake_Moved_inv snake direction food grid_size body ate :
  move_snake snake direction food grid_size = Ok (Moved body ate) →
  ∃ head,
    snake !! 0%nat = Some head
    ∧ known_direction direction
    ∧ body !! 0%nat = Some (advance direction head)
    ∧ unit_step head (advance direction head)
    ∧ in_grid (advance direction head) grid_size
    ∧ (advance direction head ∉ snake)
    ∧ (ate = true ↔ advance direction head = food)
    ∧ length body = (length snake + (if ate then 1 else 0))%nat.
Proof.
  intros Hres.
  destruct (move_snake_Moved_cases _ _ _ _ _ _ Hres)
    as (head & Hhd & Hgrid & Hself & Hate & Hbody).
  assert (known_direction direction) as Hdir.
  { destruct (decide (known_direction direction)) as [|Hunk]; [done|].
    exfalso. apply Hself. rewrite (advance_unknown _ _ Hunk).
    by eapply list_elem_of_lookup_2. }
  exists head. split_and!; try done.
  - rewrite Hbody. by destruct ate.
  - by apply advance_unit_step.
  - rewrite Hate. apply bool_decide_eq_true.
  - rewrite Hbody. destruct ate; cbn [length]; [lia|].
    destruct snake as [|h rest]; [done|].
    rewrite length_removelast_cons. cbn [length]. lia.
Qed.

Lemma move_snake_Moved_inv_witness :
  ∃ head,
    [(5,4); (5,5); (5,6)] !! 0%nat = Some head
    ∧ known_direction "UP"
    ∧ [(5,3); (5,4); (5,5); (5,6)] !! 0%nat = Some (advance "UP" head)
    ∧ unit_step head (advance "UP" head)
    ∧ in_grid (advance "UP" head) 20
    ∧ (advance "UP" head ∉ [(5,4); (5,5); (5,6)])
    ∧ (true = true ↔ advance "UP" head = (5,3))
    ∧ length [(5,3); (5,4); (5,5); (5,6)]
      = (length [(5,4); (5,5); (5,6)] + 1)%nat.
Proof.
  apply (move_snake_Moved_inv
           [(5,4); (5,5); (5,6)] "UP" (5,3) 20
           [(5,3); (5,4); (5,5); (5,6)] true).
  reflexivity.
Defined.

(** X3: food that lies under the snake is never eaten: when the function
    reports [ate = True] the food was not a cell of the old body, and the
    new head sits on it. *)
Theorem move_snake_ate_food_free snake direction food grid_size body :
  move_snake snake direction food grid_size = Ok (Moved body true) →
  (food ∉ snake) ∧ body !! 0%nat = Some food ∧ in_grid food grid_size.
Proof.
  intros Hres.
  destruct (move_snake_Moved_cases _ _ _ _ _ _ Hres)
    as (head & Hhd & Hgrid & Hself & Hate & Hbody).
  symmetry in Hate. apply bool_decide_eq_true in Hate.
  rewrite Hate in *. by rewrite Hbody.
Qed.

Lemma move_snake_ate_food_free_witness :
  ((5,3) ∉ [(5,4); (5,5); (5,6)])
  ∧ [(5,3); (5,4); (5,5); (5,6)] !! 0%nat = Some (5,3)
  ∧ in_grid (5,3) 20.
Proof.
  apply (move_snake_ate_food_free [(5,4); (5,5); (5,6)] "UP" (5,3) 20).
  reflexivity.
Defined.

(** X4: the board is never left: when every cell of the body lies on the
    board, so does every cell of a returned body. *)
Theorem move_snake_stays_in_grid snake direction food grid_size body ate :
  Forall (λ p, in_grid p grid_size) snake →
  move_snake snake direction food grid_size = Ok (Moved body ate) →
  Forall (λ p, in_grid p grid_size) body.
Proof.
  intros Hall Hres.
  destruct (move_snake_Moved_cases _ _ _ _ _ _ Hres)
    as (head & Hhd & Hgrid & Hself & Hate & Hbody).
  rewrite Hbody. destruct ate; apply Forall_cons; split; try done.
  rewrite Forall_forall in Hall |- *.
  intros p Hp. by apply Hall, elem_of_removelast.
Qed.

Lemma move_snake_stays_in_grid_witness :
  Forall (λ p, in_grid p 20) [(5,4); (5,5); (5,6)].
Proof.
  apply (move_snake_stays_in_grid
           [(5,5); (5,6); (5,7)] "UP" (5,3) 20 [(5,4); (5,5); (5,6)] false).
  - apply (bool_decide_unpack _). vm_compute. exact I.
  - reflexivity.
Defined.

(** The converse of [move_snake_Moved_cases]. *)
Lemma move_snake_Moved_intro snake head direction food grid_size :
  snake !! 0%nat = Some head →
  in_grid (advance direction head) grid_size →
  advance direction head ∉ snake →
  move_snake snake direction food grid_size =
    Ok (Moved (if bool_decide (advance direction head = food)
               then advance direction head :: snake
               else advance direction head :: removelast snake)
              (bool_decide (advance direction head = food))).
Proof.
  intros Hhd Hgrid Hself.
  rewrite (move_snake_unfold _ _ _ _ _ Hhd); cbv zeta.
  apply hits_wall_false in Hgrid as ->.
  apply contains_false in Hself as ->.
  by case_bool_decide.
Qed.

(** ** Moves in a row *)

(** X5: turning back is a collision.  After a move that left the snake
    with two cells or more (it had two already, or it just ate), a next
    move whose direction leads from the new head back to the old head
    returns [None], whatever the food and the grid size of that call. *)
Theorem move_snake_reversal_collides
    snake head direction food grid_size body ate back food' grid_size' :
  snake !! 0%nat = Some head →
  (1 < length snake)%nat ∨ ate = true →
  move_snake snake direction food grid_size = Ok (Moved body ate) →
  advance back (advance direction head) = head →
  move_snake body back food' grid_size' = Ok Collision.
Proof.
  intros Hhd Hlong Hres Hback.
  destruct (move_snake_Moved_cases _ _ _ _ _ _ Hres)
    as (head' & Hhd' & _ & _ & _ & Hbody).
  assert (head' = head) as -> by congruence.
  assert (body !! 0%nat = Some (advance direction head)) as Hhd_body.
  { rewrite Hbody. by destruct ate. }
  assert (head ∈ body) as Hneck.
  { rewrite Hbody. destruct ate.
    - apply elem_of_cons; right. by eapply list_elem_of_lookup_2.
    - destruct Hlong as [Hlen|]; [|done].
      destruct snake as [|h [|r rest]]; simpl in Hlen; try lia.
      simplify_eq/=. set_solver. }
  rewrite (move_snake_unfold _ _ _ _ _ Hhd_body); cbv zeta.
  rewrite Hback. apply contains_true in Hneck as ->.
  by destruct (hits_wall _ _).
Qed.

Lemma move_snake_reversal_collides_witness :
  move_snake [(5,4); (5,5); (5,6)] "DOWN" (1,1) 20 = Ok Collision.
Proof.
  apply (move_snake_reversal_collides
           [(5,5); (5,6); (5,7)] (5,5) "UP" (5,3) 20
           [(5,4); (5,5); (5,6)] false "DOWN" (1,1) 20).
  - reflexivity.
  - left. simpl. lia.
  - reflexivity.
  - reflexivity.
Defined.

(** ** Edge cases of the arguments *)

(** X6: a snake of one cell cannot run into itself: with one of the four
    directions it collides exactly when the new head is off the board, and
    otherwise moves to the new head alone, or, on the food, to the new
    head followed by the old one. *)
Theorem move_snake_single_segment head direction food grid_size :
  known_direction direction →
  (move_snake [head] direction food grid_size = Ok Collision
     ↔ ¬ in_grid (advance direction head) grid_size)
  ∧ (in_grid (advance direction head) grid_size →
     move_snake [head] direction food grid_size =
       Ok (if bool_decide (advance direction head = food)
           then Moved [advance direction head; head] true
           else Moved [advance direction head] false)).
Proof.
  intros Hdir.
  assert (advance direction head ∉ [head]) as Hself.
  { rewrite list_elem_of_singleton. by apply advance_moves. }
  split.
  - rewrite (move_snake_unfold _ _ [head] head) by done; cbv zeta.
    apply contains_false in Hself as ->.
    destruct (hits_wall _ _) eqn:Hwall.
    + split; [|done]. intros _ Hin. apply hits_wall_false in Hin. congruence.
    + apply hits_wall_false in Hwall. case_bool_decide; (split; [done|tauto]).
  - intros Hgrid.
    rewrite (move_snake_Moved_intro [head] head) by done.
    by case_bool_decide.
Qed.

Lemma move_snake_single_segment_witness :
  move_snake [(0,0)] "LEFT" (3,3) 20 = Ok Collision
  ↔ ¬ in_grid (advance "LEFT" (0,0)) 20.
Proof.
  apply (move_snake_single_segment (0,0) "LEFT" (3,3) 20).
  right; right; left. reflexivity.
Defined.

(** X7: a larger board never turns a move into a collision: a dictionary
    returned for [grid_size] is returned unchanged for every larger one. *)
Theorem move_snake_larger_grid snake direction food grid_size grid_size' body ate :
  grid_size <= grid_size' →
  move_snake snake direction food grid_size = Ok (Moved body ate) →
  move_snake snake direction food grid_size' = Ok (Moved body ate).
Proof.
  intros Hle Hres.
  destruct (move_snake_Moved_cases _ _ _ _ _ _ Hres)
    as (head & Hhd & Hgrid & Hself & Hate & Hbody).
  rewrite (move_snake_Moved_intro snake head); [ | done | | done].
  - by rewrite <- Hate, Hbody.
  - unfold in_grid in *. lia.
Qed.

Lemma move_snake_larger_grid_witness :
  move_snake [(5,5); (5,6); (5,7)] "RIGHT" (6,5) 40
  = Ok (Moved [(6,5); (5,5); (5,6); (5,7)] true).
Proof.
  apply (move_snake_larger_grid _ _ _ 20 40); [lia | reflexivity].
Defined.

(** X8: where the food is has no part in whether the move collides. *)
Theorem move_snake_collision_ignores_food snake direction food food' grid_size :
  move_snake snake direction food grid_size = Ok Collision
  ↔ move_snake snake direction food' grid_size = Ok Collision.
Proof.
  destruct snake as [|head rest]; [done|].
  rewrite !(move_snake_unfold _ _ (head :: rest) head) by done; cbv zeta.
  destruct (hits_wall _ _); [done|].
  destruct (contains _ _); [done|].
  by repeat case_bool_decide.
Qed.

(** ** The cells the snake occupies *)

(** X9: a move without growth frees the tail cell and nothing else: from a
    body without repeated cells, the cells of the returned body are the
    new head and the cells of the old body other than its last one. *)
Theorem move_snake_vacates_tail snake direction food grid_size body tail :
  NoDup snake →
  last snake = Some tail →
  move_snake snake direction food grid_size = Ok (Moved body false) →
  (tail ∉ body)
  ∧ ∃ head, snake !! 0%nat = Some head
      ∧ ∀ p, p ∈ body ↔ p = advance direction head ∨ (p ∈ snake ∧ p ≠ tail).
Proof.
  intros Hnodup Htail Hres.
  destruct (move_snake_Moved_cases _ _ _ _ _ _ Hres)
    as (head & Hhd & _ & Hself & _ & Hbody).
  apply last_Some in Htail as [front ->].
  rewrite removelast_last in Hbody. subst body.
  apply NoDup_app in Hnodup as (_ & Hdisj & _).
  assert (tail ∉ front) as Htail_front.
  { intros Hin. apply (Hdisj _ Hin). set_solver. }
  assert (advance direction head ≠ tail) as Hne.
  { intros Heq. apply Hself. rewrite Heq. set_solver. }
  split.
  - apply not_elem_of_cons. split; [congruence | done].
  - exists head. split; [done|]. intros p.
    rewrite elem_of_cons, elem_of_app, list_elem_of_singleton.
    split; [|tauto]. intros [->|Hp]; [tauto|].
    right. split; [tauto|]. by intros ->.
Qed.

Lemma move_snake_vacates_tail_witness :
  (5,7) ∉ [(5,4); (5,5); (5,6)].
Proof.
  apply (move_snake_vacates_tail
           [(5,5); (5,6); (5,7)] "UP" (5,3) 20 [(5,4); (5,5); (5,6)] (5,7)).
  - apply (bool_decide_unpack _). vm_compute. exact I.
  - reflexivity.
  - reflexivity.
Defined.

(** ** The returned list is a new object *)

(** X10: the list a returned dictionary refers to is an object the call
    created: its location was unused before the call and differs from the
    caller's list, so the two do not alias; after the call it holds the
    body the value-level function computes, and the caller's list still
    holds what it held. *)
Theorem heap_move_snake_result_fresh
    (σ σ' : gmap Heap.loc (list Position)) snake body direction food grid_size
    l ate :
  σ !! snake = Some body →
  Heap.move_snake snake direction food grid_size σ
    = Some (σ', Ok (Heap.RDict l ate)) →
  σ !! l = None
  ∧ l ≠ snake
  ∧ σ' !! snake = Some body
  ∧ ∃ new_body,
      σ' !! l = Some new_body
      ∧ move_snake body direction food grid_size = Ok (Moved new_body ate).
Proof.
  intros Hsnake Hrun.
  destruct (move_snake_refines σ snake body direction food grid_size Hsnake)
    as (σ1 & r & Hrun' & Hobs & Hext).
  rewrite Hrun in Hrun'. injection Hrun' as <- <-.
  assert (σ' !! snake = Some body) as Hkept by (by eapply lookup_weaken).
  revert Hrun. unfold Heap.move_snake.
  rewrite (bind_Ok _ _ _ _ _ (list_copy_Some _ _ _ Hsnake)).
  set (l1 := fresh (dom σ)). set (σ1 := <[l1 := body]> σ).
  assert (σ ⊆ σ1) as Hσ1 by apply alloc_extends.
  assert (σ1 !! l1 = Some body) as Hl1 by apply lookup_insert_eq.
  destruct body as [|head rest].
  { rewrite (bind_Raise _ _ _ σ1 IndexError); [done|].
    by rewrite (getitem_Some _ _ _ _ Hl1). }
  rewrite (bind_Ok _ _ _ σ1 head) by (by rewrite (getitem_Some _ _ _ _ Hl1)).
  set (new_head := advance direction head).
  destruct (hits_wall new_head grid_size); [done|].
  rewrite (bind_Ok _ _ _ _ _ (contains_Some _ _ _ new_head Hl1)).
  destruct (contains new_head (head :: rest)); [done|].
  rewrite (bind_Ok _ _ σ1 _ _ eq_refl).
  set (l2 := fresh (dom σ1)). set (σ2 := <[l2 := [new_head]]> σ1).
  assert (σ1 ⊆ σ2) as Hσ2 by apply alloc_extends.
  assert (σ2 !! l2 = Some [new_head]) as Hl2 by apply lookup_insert_eq.
  assert (σ2 !! l1 = Some (head :: rest)) as Hl1' by (by eapply lookup_weaken).
  rewrite (bind_Ok _ _ _ _ _ (concat_Some _ _ _ _ _ Hl2 Hl1')).
  set (l3 := fresh (dom σ2)).
  set (σ3 := <[l3 := [new_head] ++ head :: rest]> σ2).
  assert (σ3 !! l3 = Some (new_head :: head :: rest)) as Hl3
    by apply lookup_insert_eq.
  assert (σ !! l3 = None) as Hfresh.
  { destruct (σ !! l3) as [v|] eqn:Hv; [|done].
    assert (σ2 !! l3 = Some v) as Hv2.
    { eapply lookup_weaken; [exact Hv|]. by etrans. }
    pose proof (fresh_unused σ2) as Hnone. fold l3 in Hnone. congruence. }
  assert (l = l3 → σ !! l = None ∧ l ≠ snake) as Hnew.
  { intros ->. split; [done|]. intros Heq. rewrite Heq in Hfresh. congruence. }
  assert (∀ v, σ' !! l = Some v →
            Ok (Moved v ate) = move_snake (head :: rest) direction food grid_size
            → ∃ new_body, σ' !! l = Some new_body
                ∧ move_snake (head :: rest) direction food grid_size
                  = Ok (Moved new_body ate)) as Hread.
  { intros v Hv Heq. by exists v. }
  case_bool_decide.
  - intros [= <- <- <-].
    destruct (Hnew eq_refl) as [? ?]. split_and!; try done.
    apply (Hread (new_head :: head :: rest)); [done|].
    rewrite <- Hobs. simpl. by rewrite Hl3.
  - rewrite (bind_Ok _ _ _ _ _ (pop_Some _ _ _ _ Hl3)).
    intros [= <- <- <-].
    destruct (Hnew eq_refl) as [? ?]. split_and!; try done.
    apply (Hread (removelast (new_head :: head :: rest)));
      [apply lookup_insert_eq|].
    rewrite <- Hobs. simpl. by rewrite lookup_insert_eq.
Qed.

Lemma heap_move_snake_result_fresh_witness :
  ({[ 7%nat := [(5,5); (5,6); (5,7)] ]} : gmap Heap.loc (list Position))
    !! 10%nat = None
  ∧ 10%nat ≠ 7%nat.
Proof.
  destruct (heap_move_snake_result_fresh
              {[ 7%nat := [(5,5); (5,6); (5,7)] ]}
              {[ 7%nat := [(5,5); (5,6); (5,7)];
                 8%nat := [(5,5); (5,6); (5,7)]; 9%nat := [(5,4)];
                 10%nat := [(5,4); (5,5); (5,6)] ]}
              7%nat [(5,5); (5,6); (5,7)] "UP" (5,3) 20 10%nat false)
    as (Hfresh & Hne & _).
  - vm_compute. reflexivity.
  - vm_compute. reflexivity.
  - split; [exact Hfresh | exact Hne].
Defined.
